(** * Type-encoding core of parity-wasm (GC dialect): src/elements/types.rs
      and the value-type builders of src/builder/misc.rs.

    Readers are modelled as the list of bytes still to be read; a
    deserializer is a state-and-error computation over it that, like a Rust
    [&mut impl io::Read], leaves the stream where it stopped, also when it
    fails.  Writers are in-memory byte vectors: serializing returns the
    bytes written.  Bytes are [Z] values in [0, 255], [i8] tags are [Z]
    values, [u32] fields are [Z] values (see the [wf] predicates). *)

From Stdlib Require Import ZArith List String Lia Bool Permutation.
Import ListNotations.
Open Scope Z_scope.

(** ** Errors and the reader monad *)

(** Modelled from the spec: the [Error] enum of [elements] (not in src/).
    The kinds of section 7 of the spec ([UnknownValueType] carrying the raw
    tag, [Other] with its message, the propagated short read) together with
    the format errors of the varint collaborator. *)
Inductive error : Type :=
| UnexpectedEof
| UnknownValueType (tag : Z)
| Other (msg : string)
| InvalidVarInt7 (b : Z)
| InvalidVarUint1 (b : Z)
| InvalidVarUint32.

Inductive result (A : Type) : Type :=
| Ok (a : A)
| Err (e : error).
Arguments Ok {A} a.
Arguments Err {A} e.

(** A deserializer: reads from the stream, returns the result and the
    stream left over. *)
Definition M (A : Type) : Type := list Z -> result A * list Z.

Definition ret {A} (a : A) : M A := fun s => (Ok a, s).
Definition fail {A} (e : error) : M A := fun s => (Err e, s).
Definition bind {A B} (m : M A) (k : A -> M B) : M B :=
  fun s => match m s with
           | (Ok a, s') => k a s'
           | (Err e, s') => (Err e, s')
           end.
Definition fmap {A B} (f : A -> B) (m : M A) : M B :=
  bind m (fun a => ret (f a)).

Notation "x <- m ;; k" := (bind m (fun x => k))
  (at level 61, m at next level, right associativity).

(** Modelled from the spec: [io::Read] on a cursor; a short read fails
    with the propagated I/O error and consumes nothing. *)
Definition read_byte : M Z :=
  fun s => match s with
           | [] => (Err UnexpectedEof, [])
           | b :: s' => (Ok b, s')
           end.

(** Rust's [Option::or]. *)
Definition option_or {A} (a b : option A) : option A :=
  match a with Some _ => a | None => b end.

Definition ok_or {A} (o : option A) (e : error) : M A :=
  match o with Some a => ret a | None => fail e end.

(** ** Primitive varint codecs (collaborators of the core) *)

(** Modelled from the spec: [VarInt7], a signed value in one 7-bit group
    (continuation bit clear, bit 6 the sign bit). *)
Definition VarInt7_deserialize : M Z :=
  b <- read_byte ;;
  if 128 <=? b then fail (InvalidVarInt7 b)
  else ret (if 64 <=? b then b - 128 else b).

Definition VarInt7_serialize (v : Z) : list Z := [v mod 128].

(** Modelled from the spec: [VarUint1], a boolean flag in one byte. *)
Definition VarUint1_deserialize : M bool :=
  b <- read_byte ;;
  if b =? 0 then ret false
  else if b =? 1 then ret true
  else fail (InvalidVarUint1 b).

Definition VarUint1_serialize (v : bool) : list Z := [if v then 1 else 0].

(** Modelled from the spec: [VarUint32], unsigned LEB128 with at most five
    7-bit groups (least significant first) whose value fits in 32 bits.
    [fuel] is the number of groups still allowed, [shift] the weight of the
    next group. *)
Fixpoint read_leb (fuel : nat) (shift acc : Z) : M Z :=
  match fuel with
  | O => fail InvalidVarUint32
  | S f =>
      b <- read_byte ;;
      let acc' := acc + (b mod 128) * 2 ^ shift in
      if b <? 128 then
        (if acc' <? 2 ^ 32 then ret acc' else fail InvalidVarUint32)
      else read_leb f (shift + 7) acc'
  end.

Definition VarUint32_deserialize : M Z := read_leb 5 0 0.

(** Writes the minimal encoding: a group per 7 bits, continuation bit set
    on all groups but the last. *)
Fixpoint write_leb (fuel : nat) (v : Z) : list Z :=
  match fuel with
  | O => []
  | S f =>
      let v' := v / 128 in
      if 0 <? v' then (v mod 128 + 128) :: write_leb f v'
      else [v mod 128]
  end.

Definition VarUint32_serialize (v : Z) : list Z := write_leb 5 v.

(** Modelled from the spec: [CountedList<T>]: a [VarUint32] count, then
    that many [T]. *)
Fixpoint read_n {A} (n : nat) (d : M A) : M (list A) :=
  match n with
  | O => ret []
  | S n' => x <- d ;; xs <- read_n n' d ;; ret (x :: xs)
  end.

Definition CountedList_deserialize {A} (d : M A) : M (list A) :=
  count <- VarUint32_deserialize ;; read_n (Z.to_nat count) d.

(** Modelled from the spec: [CountedListWriter<T>]. *)
Definition CountedListWriter_serialize {A} (ser : A -> list Z) (l : list A)
  : list Z :=
  VarUint32_serialize (Z.of_nat (List.length l)) ++ flat_map ser l.

(** ** Tag constants *)

Definition I32TYPE : Z := -1.
Definition I64TYPE : Z := -2.
Definition F32TYPE : Z := -3.
Definition F64TYPE : Z := -4.
Definition V128TYPE : Z := -5.
Definition ANYFUNCTYPE : Z := -16.
Definition ANYREFTYPE : Z := -17.
Definition REFTYPE : Z := -18.
Definition PACKEDI8TYPE : Z := -24.
Definition PACKEDI16TYPE : Z := -25.
Definition FUNCTIONTYPE : Z := -32.
Definition STRUCTTYPE : Z := -33.
Definition ARRAYTYPE : Z := -34.
Definition NORESULTTYPE : Z := -64.

(** [u32] range. *)
Definition is_u32 (i : Z) : bool := (0 <=? i) && (i <? 2 ^ 32).

(** ** NumType *)
Module NumType.
Inductive t : Type := I32 | I64 | F32 | F64.

Definition from_bits (x : Z) : option t :=
  if x =? I32TYPE then Some I32
  else if x =? I64TYPE then Some I64
  else if x =? F32TYPE then Some F32
  else if x =? F64TYPE then Some F64
  else None.

Definition to_bits (n : t) : Z :=
  match n with
  | I32 => I32TYPE
  | I64 => I64TYPE
  | F32 => F32TYPE
  | F64 => F64TYPE
  end.
End NumType.

(** ** RefType *)
Module RefType.
Inductive t : Type := AnyRef | AnyFunc | Ref (i : Z).

Definition from_bits (x : Z) : option t :=
  if x =? ANYFUNCTYPE then Some AnyFunc
  else if x =? ANYREFTYPE then Some AnyRef
  else if x =? REFTYPE then Some (Ref 0)
  else None.

Definition to_bits (r : t) : Z :=
  match r with
  | AnyFunc => ANYFUNCTYPE
  | AnyRef => ANYREFTYPE
  | Ref _ => REFTYPE
  end.

(** [read_rest] overwrites the index of [Ref] in place. *)
Definition read_rest (r : t) : M t :=
  match r with
  | Ref _ => i <- VarUint32_deserialize ;; ret (Ref i)
  | _ => ret r
  end.

Definition write_rest (r : t) : list Z :=
  match r with
  | Ref i => VarUint32_serialize i
  | _ => []
  end.

Definition deserialize : M t :=
  val <- VarInt7_deserialize ;;
  item <- ok_or (from_bits val) (UnknownValueType val) ;;
  read_rest item.

Definition serialize (r : t) : list Z :=
  VarInt7_serialize (to_bits r) ++ write_rest r.

(** Constructible: the index is a [u32]. *)
Definition wf (r : t) : bool :=
  match r with Ref i => is_u32 i | _ => true end.
End RefType.

(** ** ValueType *)
Module ValueType.
Inductive t : Type := Num (n : NumType.t) | Ref (r : RefType.t) | V128.

Definition from_bits (x : Z) : option t :=
  option_or
    (option_or (if x =? V128TYPE then Some V128 else None)
               (option_map Num (NumType.from_bits x)))
    (option_map Ref (RefType.from_bits x)).

Definition to_bits (v : t) : Z :=
  match v with
  | V128 => V128TYPE
  | Num n => NumType.to_bits n
  | Ref r => RefType.to_bits r
  end.

Definition read_rest (v : t) : M t :=
  match v with
  | Ref r => fmap Ref (RefType.read_rest r)
  | _ => ret v
  end.

Definition write_rest (v : t) : list Z :=
  match v with
  | Ref r => RefType.write_rest r
  | _ => []
  end.

Definition deserialize : M t :=
  val <- VarInt7_deserialize ;;
  item <- ok_or (from_bits val) (UnknownValueType val) ;;
  read_rest item.

Definition serialize (v : t) : list Z :=
  VarInt7_serialize (to_bits v) ++ write_rest v.

Definition wf (v : t) : bool :=
  match v with Ref r => RefType.wf r | _ => true end.
End ValueType.

(** ** BlockType *)
Module BlockType.
Inductive t : Type := Value (v : ValueType.t) | NoResult.

Definition deserialize : M t :=
  val <- VarInt7_deserialize ;;
  ok_or (option_or (if val =? NORESULTTYPE then Some NoResult else None)
                   (option_map Value (ValueType.from_bits val)))
        (UnknownValueType val).

Definition serialize (b : t) : list Z :=
  VarInt7_serialize (match b with
                     | NoResult => NORESULTTYPE
                     | Value v => ValueType.to_bits v
                     end).

Definition wf (b : t) : bool :=
  match b with Value v => ValueType.wf v | NoResult => true end.
End BlockType.

(** ** FunctionType *)
Module FunctionType.
Record t : Type := mk { params : list ValueType.t;
                        return_type : option ValueType.t }.

Definition deserialize : M t :=
  params <- CountedList_deserialize ValueType.deserialize ;;
  return_types <- VarUint32_deserialize ;;
  return_type <- (if return_types =? 1 then fmap Some ValueType.deserialize
                  else if return_types =? 0 then ret None
                  else fail (Other "Return types length should be 0 or 1")) ;;
  ret (mk params return_type).

Definition serialize (f : t) : list Z :=
  CountedListWriter_serialize ValueType.serialize (params f) ++
  match return_type f with
  | Some r => VarUint1_serialize true ++ ValueType.serialize r
  | None => VarUint1_serialize false
  end.

(** Constructible: [u32] indices, and fewer than [2^32] parameters (the
    [usize] to [VarUint32] conversion of [CountedListWriter] asserts it). *)
Definition wf (f : t) : bool :=
  forallb ValueType.wf (params f) && (Z.of_nat (List.length (params f)) <? 2 ^ 32)
  && match return_type f with Some r => ValueType.wf r | None => true end.
End FunctionType.

(** ** StorageType *)
Module StorageType.
Inductive t : Type := Value (v : ValueType.t) | PackedI8 | PackedI16.

Definition deserialize : M t :=
  val <- VarInt7_deserialize ;;
  if val =? PACKEDI8TYPE then ret PackedI8
  else if val =? PACKEDI16TYPE then ret PackedI16
  else match ValueType.from_bits val with
       | Some item => fmap Value (ValueType.read_rest item)
       | None => fail (UnknownValueType val)
       end.

Definition serialize (s : t) : list Z :=
  match s with
  | PackedI8 => VarInt7_serialize PACKEDI8TYPE
  | PackedI16 => VarInt7_serialize PACKEDI16TYPE
  | Value v => VarInt7_serialize (ValueType.to_bits v) ++ ValueType.write_rest v
  end.

Definition wf (s : t) : bool :=
  match s with Value v => ValueType.wf v | _ => true end.
End StorageType.

(** ** FieldType *)
Module FieldType.
Record t : Type := mk { elem : StorageType.t; mutable : bool }.

Definition deserialize : M t :=
  mutable <- VarUint1_deserialize ;;
  elem <- StorageType.deserialize ;;
  ret (mk elem mutable).

Definition serialize (f : t) : list Z :=
  VarUint1_serialize (mutable f) ++ StorageType.serialize (elem f).

Definition wf (f : t) : bool := StorageType.wf (elem f).
End FieldType.

(** ** StructType *)
Module StructType.
Record t : Type := mk { fields : list FieldType.t }.

Definition deserialize : M t :=
  fields <- CountedList_deserialize FieldType.deserialize ;;
  ret (mk fields).

Definition serialize (s : t) : list Z :=
  CountedListWriter_serialize FieldType.serialize (fields s).

Definition wf (s : t) : bool :=
  forallb FieldType.wf (fields s) && (Z.of_nat (List.length (fields s)) <? 2 ^ 32).
End StructType.

(** ** ArrayType *)
Module ArrayType.
Record t : Type := mk { elem : FieldType.t }.

Definition deserialize : M t :=
  elem <- FieldType.deserialize ;; ret (mk elem).

Definition serialize (a : t) : list Z := FieldType.serialize (elem a).

Definition wf (a : t) : bool := FieldType.wf (elem a).
End ArrayType.

(** ** Type (the Rust enum [Type]; [Type] is a keyword of Rocq) *)
Module Type_.
Inductive t : Type :=
| Function (f : FunctionType.t)
| Struct (s : StructType.t)
| Array (a : ArrayType.t).

Definition deserialize : M t :=
  val <- VarInt7_deserialize ;;
  if val =? FUNCTIONTYPE then fmap Function FunctionType.deserialize
  else if val =? STRUCTTYPE then fmap Struct StructType.deserialize
  else if val =? ARRAYTYPE then fmap Array ArrayType.deserialize
  else fail (UnknownValueType val).

Definition serialize (x : t) : list Z :=
  match x with
  | Function f => VarInt7_serialize FUNCTIONTYPE ++ FunctionType.serialize f
  | Struct s => VarInt7_serialize STRUCTTYPE ++ StructType.serialize s
  | Array a => VarInt7_serialize ARRAYTYPE ++ ArrayType.serialize a
  end.

Definition wf (x : t) : bool :=
  match x with
  | Function f => FunctionType.wf f
  | Struct s => StructType.wf s
  | Array a => ArrayType.wf a
  end.
End Type_.

(** ** Builders (src/builder/misc.rs) *)

(** [ValueTypesBuilder<F>]: a continuation and the value types chosen so
    far; each selection method pushes onto the vector and returns the
    builder, [build] invokes the continuation. *)
Module ValueTypesBuilder.
Record t (R : Type) : Type := mk { callback : list ValueType.t -> R;
                                   value_types : list ValueType.t }.
Arguments mk {R}. Arguments callback {R}. Arguments value_types {R}.

Definition with_callback {R} (callback : list ValueType.t -> R) : t R :=
  mk callback [].

Definition push {R} (b : t R) (v : ValueType.t) : t R :=
  mk (callback b) (value_types b ++ [v]).

Definition i32 {R} (b : t R) : t R := push b (ValueType.Num NumType.I32).
Definition i64 {R} (b : t R) : t R := push b (ValueType.Num NumType.I64).
Definition f32 {R} (b : t R) : t R := push b (ValueType.Num NumType.F32).
Definition f64 {R} (b : t R) : t R := push b (ValueType.Num NumType.F64).

Definition build {R} (b : t R) : R := callback b (value_types b).
End ValueTypesBuilder.

(** [Identity]: the continuation returning its argument. *)
Definition Identity {A} (a : A) : A := a.

(** A chain of [ValueTypesBuilder] selection calls, in call order. *)
Inductive selection : Type := sel_i32 | sel_i64 | sel_f32 | sel_f64.

Definition select {R} (b : ValueTypesBuilder.t R) (m : selection) : ValueTypesBuilder.t R :=
  match m with
  | sel_i32 => ValueTypesBuilder.i32 b
  | sel_i64 => ValueTypesBuilder.i64 b
  | sel_f32 => ValueTypesBuilder.f32 b
  | sel_f64 => ValueTypesBuilder.f64 b
  end.

Definition selection_type (m : selection) : ValueType.t :=
  match m with
  | sel_i32 => ValueType.Num NumType.I32
  | sel_i64 => ValueType.Num NumType.I64
  | sel_f32 => ValueType.Num NumType.F32
  | sel_f64 => ValueType.Num NumType.F64
  end.

(** ** [impl fmt::Display for ValueType] *)

(** The formatter's [{}] on a [u32]: its decimal digits, most significant
    first, without leading zeros ([fuel] bounds the number of digits; a
    [u32] has at most 10). *)
Definition digit (d : Z) : Ascii.ascii := Ascii.ascii_of_nat (48 + Z.to_nat d).

Fixpoint decimal_digits (fuel : nat) (n : Z) : string :=
  match fuel with
  | O => EmptyString
  | S f =>
      if n <? 10 then String (digit n) EmptyString
      else (decimal_digits f (n / 10) ++ String (digit (n mod 10)) EmptyString)%string
  end.

Definition display_u32 (n : Z) : string := decimal_digits 10 n.

Definition ValueType_fmt (v : ValueType.t) : string :=
  match v with
  | ValueType.Num NumType.I32 => "i32"
  | ValueType.Num NumType.I64 => "i64"
  | ValueType.Num NumType.F32 => "f32"
  | ValueType.Num NumType.F64 => "f64"
  | ValueType.Ref RefType.AnyRef => "anyref"
  | ValueType.Ref RefType.AnyFunc => "anyfunc"
  | ValueType.Ref (RefType.Ref idx) => ("(ref " ++ display_u32 idx ++ ")")%string
  | ValueType.V128 => "v128"
  end.

(** Reading decimal digits back (left to right). *)
Fixpoint parse_decimal (s : string) (acc : Z) : Z :=
  match s with
  | EmptyString => acc
  | String c s' => parse_decimal s' (acc * 10 + (Z.of_nat (Ascii.nat_of_ascii c) - 48))
  end.

(** * Proofs *)

(** ** Reader monad *)

Lemma bind_step {A B} (m : M A) (k : A -> M B) s a s' :
  m s = (Ok a, s') -> bind m k s = k a s'.
Proof. unfold bind; intros ->; reflexivity. Qed.

Lemma bind_err {A B} (m : M A) (k : A -> M B) s e s' :
  m s = (Err e, s') -> bind m k s = (Err e, s').
Proof. unfold bind; intros ->; reflexivity. Qed.

Ltac step lem := erewrite bind_step; [| apply lem].

(** ** Varints *)

Lemma VarInt7_roundtrip t rest :
  -64 <= t < 64 -> VarInt7_deserialize (VarInt7_serialize t ++ rest) = (Ok t, rest).
Proof.
  intros Ht. unfold VarInt7_deserialize, VarInt7_serialize, bind; cbn.
  destruct (128 <=? t mod 128) eqn:E1; [apply Z.leb_le in E1; Z.div_mod_to_equations; lia|].
  unfold ret; f_equal; f_equal.
  destruct (64 <=? t mod 128) eqn:E2;
    [apply Z.leb_le in E2 | apply Z.leb_gt in E2]; Z.div_mod_to_equations; lia.
Qed.

Lemma VarUint1_roundtrip b rest :
  VarUint1_deserialize (VarUint1_serialize b ++ rest) = (Ok b, rest).
Proof. destruct b; reflexivity. Qed.

Lemma read_leb_write_leb n v shift acc rest :
  0 <= v < 2 ^ (7 * Z.of_nat (S n)) -> 0 <= shift -> 0 <= acc < 2 ^ shift ->
  acc + v * 2 ^ shift < 2 ^ 32 ->
  read_leb (S n) shift acc (write_leb (S n) v ++ rest) = (Ok (acc + v * 2 ^ shift), rest).
Proof.
  revert v shift acc. induction n as [|n IH]; intros v shift acc Hv Hs Ha Hlt.
  - assert (Hv' : v / 128 = 0) by (change (2 ^ (7 * Z.of_nat 1)) with 128 in Hv;
                                    apply Z.div_small; lia).
    cbn [write_leb]. rewrite Hv'. cbn -[Z.pow].
    rewrite Z.mod_small by lia. unfold bind; cbn -[Z.pow].
    rewrite Z.mod_small by lia.
    destruct (v <? 128) eqn:E; [|apply Z.ltb_ge in E; lia].
    destruct (acc + v * 2 ^ shift <? 2 ^ 32) eqn:E2; [reflexivity|apply Z.ltb_ge in E2; lia].
  - assert (HP : 0 < 2 ^ shift) by (apply Z.pow_pos_nonneg; lia).
    assert (Hpow : 2 ^ (7 * Z.of_nat (S (S n))) = 2 ^ (7 * Z.of_nat (S n)) * 128).
    { rewrite <- (Z.pow_add_r 2 _ 7) by lia. f_equal; lia. }
    assert (Hsh : 2 ^ (shift + 7) = 2 ^ shift * 128) by (rewrite Z.pow_add_r by lia; reflexivity).
    remember (S n) as m eqn:Hm.
    cbn [write_leb].
    destruct (0 <? v / 128) eqn:E.
    + apply Z.ltb_lt in E.
      cbn [app read_leb]. unfold bind at 1; cbn [read_byte].
      assert (Hb : (v mod 128 + 128) mod 128 = v mod 128).
      { rewrite Z.add_mod, Z.mod_same, Z.add_0_r, !Z.mod_mod by lia; reflexivity. }
      rewrite Hb.
      destruct (v mod 128 + 128 <? 128) eqn:E2;
        [apply Z.ltb_lt in E2; pose proof (Z.mod_pos_bound v 128); lia|].
      rewrite IH.
      * f_equal. f_equal. rewrite Hsh. pose proof (Z.div_mod v 128). nia.
      * split; [apply Z.div_pos; lia|]. rewrite Hpow in Hv.
        apply Z.div_lt_upper_bound; lia.
      * lia.
      * rewrite Hsh. pose proof (Z.mod_pos_bound v 128). nia.
      * rewrite Hsh. pose proof (Z.div_mod v 128). pose proof (Z.mod_pos_bound v 128). nia.
    + apply Z.ltb_ge in E.
      assert (Hsmall : v < 128) by (destruct (Z.lt_ge_cases v 128); auto;
                                    assert (1 <= v / 128) by (apply (Z.div_le_lower_bound v 128 1); lia); lia).
      cbn [app read_leb]. unfold bind; cbn [read_byte].
      rewrite !Z.mod_small by lia.
      destruct (v <? 128) eqn:E3; [|apply Z.ltb_ge in E3; lia].
      destruct (acc + v * 2 ^ shift <? 2 ^ 32) eqn:E4; [reflexivity|apply Z.ltb_ge in E4; lia].
Qed.

Lemma VarUint32_roundtrip i rest :
  is_u32 i = true -> VarUint32_deserialize (VarUint32_serialize i ++ rest) = (Ok i, rest).
Proof.
  unfold is_u32; rewrite andb_true_iff, Z.leb_le, Z.ltb_lt; intros Hi.
  unfold VarUint32_deserialize, VarUint32_serialize.
  rewrite read_leb_write_leb.
  - f_equal; f_equal; lia.
  - split; [lia|]. change (2 ^ (7 * Z.of_nat 5)) with (2 ^ 35).
    change (2 ^ 35) with (2 ^ 32 * 8). lia.
  - lia.
  - lia.
  - lia.
Qed.

Lemma read_n_roundtrip {A} (d : M A) (ser : A -> list Z) (P : A -> Prop) l rest :
  (forall x r, P x -> d (ser x ++ r) = (Ok x, r)) -> Forall P l ->
  read_n (List.length l) d (flat_map ser l ++ rest) = (Ok l, rest).
Proof.
  intros Hd Hl. induction Hl as [|x l Hx Hl IH]; [reflexivity|].
  cbn [List.length read_n flat_map]. rewrite <- app_assoc.
  erewrite bind_step; [| apply Hd, Hx].
  erewrite bind_step; [| apply IH]. reflexivity.
Qed.

Lemma CountedList_roundtrip {A} (d : M A) (ser : A -> list Z) (P : A -> Prop) l rest :
  (forall x r, P x -> d (ser x ++ r) = (Ok x, r)) -> Forall P l ->
  Z.of_nat (List.length l) < 2 ^ 32 ->
  CountedList_deserialize d (CountedListWriter_serialize ser l ++ rest) = (Ok l, rest).
Proof.
  intros Hd Hl Hlen. unfold CountedList_deserialize, CountedListWriter_serialize.
  rewrite <- app_assoc.
  erewrite bind_step; [| apply VarUint32_roundtrip; unfold is_u32; apply andb_true_iff;
                         rewrite Z.leb_le, Z.ltb_lt; lia].
  rewrite Nat2Z.id. apply (read_n_roundtrip d ser P); assumption.
Qed.

Lemma fmap_step {A B} (f : A -> B) (m : M A) s a s' :
  m s = (Ok a, s') -> fmap f m s = (Ok (f a), s').
Proof. unfold fmap, bind; intros ->; reflexivity. Qed.

Lemma RefType_read_rest_Ref j i rest :
  is_u32 i = true ->
  RefType.read_rest (RefType.Ref j) (VarUint32_serialize i ++ rest) = (Ok (RefType.Ref i), rest).
Proof. intros Hi. unfold RefType.read_rest. step VarUint32_roundtrip; [reflexivity | exact Hi]. Qed.

(** ** Round trips of the core's types *)

Lemma NumType_roundtrip n : NumType.from_bits (NumType.to_bits n) = Some n.
Proof. destruct n; reflexivity. Qed.

Lemma RefType_roundtrip r rest :
  RefType.wf r = true -> RefType.deserialize (RefType.serialize r ++ rest) = (Ok r, rest).
Proof.
  destruct r as [| |i]; intros Hw; try reflexivity.
  unfold RefType.deserialize, RefType.serialize. rewrite <- app_assoc.
  erewrite bind_step; [| apply VarInt7_roundtrip; cbv; split; [intro Hc; discriminate Hc | reflexivity]].
  cbn -[VarUint32_deserialize VarUint32_serialize RefType.read_rest].
  apply RefType_read_rest_Ref, Hw.
Qed.

Lemma ValueType_roundtrip v rest :
  ValueType.wf v = true -> ValueType.deserialize (ValueType.serialize v ++ rest) = (Ok v, rest).
Proof.
  destruct v as [n|[| |i]|]; intros Hw; try (destruct n); try reflexivity.
  unfold ValueType.deserialize, ValueType.serialize. rewrite <- app_assoc.
  erewrite bind_step; [| apply VarInt7_roundtrip; cbv; split; [intro Hc; discriminate Hc | reflexivity]].
  cbn -[VarUint32_deserialize VarUint32_serialize RefType.read_rest fmap].
  erewrite fmap_step; [reflexivity | apply RefType_read_rest_Ref, Hw].
Qed.

(** [BlockType] writes only the tag; reading it back gives the block type
    with a [Ref] index reset to 0. *)
Definition BlockType_tag_only (b : BlockType.t) : BlockType.t :=
  match b with
  | BlockType.Value (ValueType.Ref (RefType.Ref _)) =>
      BlockType.Value (ValueType.Ref (RefType.Ref 0))
  | _ => b
  end.

Lemma BlockType_deserialize_serialize b rest :
  BlockType.deserialize (BlockType.serialize b ++ rest) = (Ok (BlockType_tag_only b), rest).
Proof. destruct b as [[[]|[]|]|]; reflexivity. Qed.

Lemma StorageType_roundtrip s rest :
  StorageType.wf s = true -> StorageType.deserialize (StorageType.serialize s ++ rest) = (Ok s, rest).
Proof.
  destruct s as [[n|[| |i]|]| |]; intros Hw; try (destruct n); try reflexivity.
  unfold StorageType.deserialize, StorageType.serialize. rewrite <- app_assoc.
  erewrite bind_step; [| apply VarInt7_roundtrip; cbv; split; [intro Hc; discriminate Hc | reflexivity]].
  cbn -[VarUint32_deserialize VarUint32_serialize RefType.read_rest fmap].
  erewrite fmap_step; [reflexivity|].
  erewrite fmap_step; [reflexivity | apply RefType_read_rest_Ref, Hw].
Qed.

Lemma FieldType_roundtrip f rest :
  FieldType.wf f = true -> FieldType.deserialize (FieldType.serialize f ++ rest) = (Ok f, rest).
Proof.
  destruct f as [e m]; intros Hw. unfold FieldType.deserialize, FieldType.serialize.
  cbn [FieldType.mutable FieldType.elem]. rewrite <- app_assoc.
  step VarUint1_roundtrip. step StorageType_roundtrip; [reflexivity | exact Hw].
Qed.

Lemma FunctionType_roundtrip f rest :
  FunctionType.wf f = true ->
  FunctionType.deserialize (FunctionType.serialize f ++ rest) = (Ok f, rest).
Proof.
  destruct f as [ps r]. unfold FunctionType.wf; cbn [FunctionType.params FunctionType.return_type].
  rewrite !andb_true_iff, Z.ltb_lt. intros [[Hps Hlen] Hr].
  unfold FunctionType.deserialize, FunctionType.serialize.
  cbn [FunctionType.params FunctionType.return_type]. rewrite <- app_assoc.
  erewrite bind_step; [| apply (CountedList_roundtrip _ _ (fun v => ValueType.wf v = true));
                         [intros; apply ValueType_roundtrip; assumption
                         | apply Forall_forall, forallb_forall; exact Hps | exact Hlen]].
  destruct r as [v|].
  - cbn [VarUint1_serialize app].
    erewrite bind_step; [| reflexivity]. cbn [Z.eqb Pos.eqb].
    erewrite bind_step; [reflexivity | apply fmap_step, ValueType_roundtrip, Hr].
  - reflexivity.
Qed.

Lemma StructType_roundtrip s rest :
  StructType.wf s = true -> StructType.deserialize (StructType.serialize s ++ rest) = (Ok s, rest).
Proof.
  destruct s as [fs]. unfold StructType.wf; cbn [StructType.fields].
  rewrite andb_true_iff, Z.ltb_lt. intros [Hfs Hlen].
  unfold StructType.deserialize, StructType.serialize; cbn [StructType.fields].
  erewrite bind_step; [reflexivity|].
  apply (CountedList_roundtrip _ _ (fun f => FieldType.wf f = true));
    [intros; apply FieldType_roundtrip; assumption
    | apply Forall_forall, forallb_forall; exact Hfs | exact Hlen].
Qed.

Lemma ArrayType_roundtrip a rest :
  ArrayType.wf a = true -> ArrayType.deserialize (ArrayType.serialize a ++ rest) = (Ok a, rest).
Proof.
  destruct a as [e]; intros Hw. unfold ArrayType.deserialize, ArrayType.serialize.
  step FieldType_roundtrip; [reflexivity | exact Hw].
Qed.

Lemma Type_roundtrip x rest :
  Type_.wf x = true -> Type_.deserialize (Type_.serialize x ++ rest) = (Ok x, rest).
Proof.
  intros Hw. unfold Type_.deserialize, fmap.
  destruct x as [f|s|a]; cbn [Type_.serialize Type_.wf] in *; rewrite <- app_assoc;
    (erewrite bind_step; [| apply VarInt7_roundtrip; cbv; split; [intro Hc; discriminate Hc | reflexivity]]); cbn -[bind].
  - step FunctionType_roundtrip; [reflexivity | exact Hw].
  - step StructType_roundtrip; [reflexivity | exact Hw].
  - step ArrayType_roundtrip; [reflexivity | exact Hw].
Qed.

(** ** Tag dispatch *)

(** Recognised tags per dispatch level, read off the constants each
    deserializer matches. *)
Definition ValueType_tags : list Z :=
  [V128TYPE; I32TYPE; I64TYPE; F32TYPE; F64TYPE; ANYFUNCTYPE; ANYREFTYPE; REFTYPE].
Definition StorageType_tags : list Z := PACKEDI8TYPE :: PACKEDI16TYPE :: ValueType_tags.
Definition BlockType_tags : list Z := NORESULTTYPE :: ValueType_tags.
Definition Type_tags : list Z := [FUNCTIONTYPE; STRUCTTYPE; ARRAYTYPE].

Ltac eqb_cases t :=
  repeat match goal with
         | |- context [Z.eqb t ?c] => destruct (Z.eqb_spec t c)
         end.

Lemma ValueType_from_bits_None t :
  ~ In t ValueType_tags -> ValueType.from_bits t = None.
Proof.
  intros H. unfold ValueType_tags in H; cbn [In] in H.
  unfold ValueType.from_bits, NumType.from_bits, RefType.from_bits,
    V128TYPE, I32TYPE, I64TYPE, F32TYPE, F64TYPE, ANYFUNCTYPE, ANYREFTYPE, REFTYPE in *.
  eqb_cases t; subst; cbn; tauto.
Qed.

Lemma read_leb_no_UVT n shift acc s x :
  fst (read_leb n shift acc s) <> Err (UnknownValueType x).
Proof.
  revert shift acc s. induction n as [|n IH]; intros shift acc s; cbn [read_leb].
  - discriminate.
  - destruct s as [|b s]; [discriminate|]. unfold bind; cbn [read_byte].
    destruct (b <? 128); [|apply IH].
    destruct (_ <? _); discriminate.
Qed.

Lemma ValueType_read_rest_no_UVT v s x :
  fst (ValueType.read_rest v s) <> Err (UnknownValueType x).
Proof.
  destruct v as [n|[| |i]|]; try discriminate.
  cbn [ValueType.read_rest RefType.read_rest]. unfold fmap, bind at 1. unfold bind at 1.
  pose proof (read_leb_no_UVT 5 0 0 s x) as H. unfold VarUint32_deserialize.
  destruct (read_leb 5 0 0 s) as [[a|e] s'] eqn:E; cbn in *; [discriminate|congruence].
Qed.

(** * Claims *)

(** C1 (code_bug). Round trip fails for [BlockType::Value(ValueType::Ref(
    RefType::Ref(7)))]: [BlockType::serialize] writes only the tag and
    [BlockType::deserialize] never reads the index, so the value read back
    is [Ref(0)].  All the other types do round-trip (see the
    [*_roundtrip] lemmas above). *)
Theorem BlockType_ref_roundtrip_loses_index :
  BlockType.deserialize
    (BlockType.serialize (BlockType.Value (ValueType.Ref (RefType.Ref 7))))
  = (Ok (BlockType.Value (ValueType.Ref (RefType.Ref 0))), [])
  /\ BlockType.Value (ValueType.Ref (RefType.Ref 0))
     <> BlockType.Value (ValueType.Ref (RefType.Ref 7)).
Proof. split; [reflexivity | discriminate]. Qed.

(** C2 (code_bug). On the bytes [REFTYPE tag; 7], [ValueType::deserialize]
    reads the trailing index and yields [Ref(7)], but
    [BlockType::deserialize] stops after the tag, yields [Ref(0)] and leaves
    the index byte unread. *)
Theorem BlockType_ref_trailing_index_not_read :
  ValueType.deserialize [110; 7] = (Ok (ValueType.Ref (RefType.Ref 7)), [])
  /\ BlockType.deserialize [110; 7]
     = (Ok (BlockType.Value (ValueType.Ref (RefType.Ref 0))), [7]).
Proof. split; reflexivity. Qed.

(** Re-serializing what was deserialized from the bytes of [serialize v]
    gives back exactly those bytes, and the read consumes exactly them. *)
Definition reencodes {A} (des : M A) (ser : A -> list Z) (wf : A -> bool) : Prop :=
  forall v rest, wf v = true ->
  exists v', des (ser v ++ rest) = (Ok v', rest) /\ ser v' = ser v.

Lemma roundtrip_reencodes {A} (des : M A) (ser : A -> list Z) (wf : A -> bool) :
  (forall v rest, wf v = true -> des (ser v ++ rest) = (Ok v, rest)) ->
  reencodes des ser wf.
Proof. intros H v rest Hw. exists v. split; [apply H, Hw | reflexivity]. Qed.

(** C3 (counterexample). A well-formed [FunctionType] whose return-type
    count 1 is written as the padded LEB128 group pair [0x81 0x00] is
    accepted by [FunctionType::deserialize], but serializing the result
    writes the one-byte flag [0x01]: the original bytes are not
    reproduced. *)
Lemma FunctionType_padded_count_not_reproduced :
  let bytes := [0; 129; 0; 127] in
  let f := FunctionType.mk [] (Some (ValueType.Num NumType.I32)) in
  VarUint32_deserialize [129; 0] = (Ok 1, [])
  /\ FunctionType.deserialize bytes = (Ok f, [])
  /\ FunctionType.serialize f = [0; 1; 127]
  /\ FunctionType.serialize f <> bytes.
Proof. cbv zeta. repeat split; try reflexivity. discriminate. Qed.

(** C3 (amended). On every byte sequence that [serialize] writes for a
    constructible value, each of the core's deserializers consumes exactly
    that sequence and serializing its result reproduces it; for
    [FunctionType] the return-type counts 0 and 1 coincide with the
    [VarUint1] flag bytes, and for [BlockType] the value read back may
    differ (a [Ref] index becomes 0) but re-serializes to the same single
    tag byte. *)
Theorem serialize_deserialize_canonical :
  reencodes RefType.deserialize RefType.serialize RefType.wf
  /\ reencodes ValueType.deserialize ValueType.serialize ValueType.wf
  /\ reencodes BlockType.deserialize BlockType.serialize BlockType.wf
  /\ reencodes StorageType.deserialize StorageType.serialize StorageType.wf
  /\ reencodes FieldType.deserialize FieldType.serialize FieldType.wf
  /\ reencodes FunctionType.deserialize FunctionType.serialize FunctionType.wf
  /\ reencodes StructType.deserialize StructType.serialize StructType.wf
  /\ reencodes ArrayType.deserialize ArrayType.serialize ArrayType.wf
  /\ reencodes Type_.deserialize Type_.serialize Type_.wf.
Proof.
  repeat split; try (apply roundtrip_reencodes; intros; solve [auto using
    RefType_roundtrip, ValueType_roundtrip, StorageType_roundtrip, FieldType_roundtrip,
    FunctionType_roundtrip, StructType_roundtrip, ArrayType_roundtrip, Type_roundtrip]).
  intros b rest _. exists (BlockType_tag_only b).
  split; [apply BlockType_deserialize_serialize | destruct b as [[[]|[]|]|]; reflexivity].
Qed.

Lemma serialize_deserialize_canonical_witness :
  let f := Type_.Function
             (FunctionType.mk [ValueType.Ref (RefType.Ref 300)] (Some ValueType.V128)) in
  Type_.wf f = true /\
  exists v', Type_.deserialize (Type_.serialize f ++ [42]) = (Ok v', [42])
             /\ Type_.serialize v' = Type_.serialize f.
Proof.
  cbv zeta. split; [reflexivity|].
  destruct serialize_deserialize_canonical as (_ & _ & _ & _ & _ & _ & _ & _ & H).
  apply H. reflexivity.
Defined.

(** C4 (counterexample). [FUNCTIONTYPE] is a recognised [Type]
    discriminant, yet [Type::deserialize] on [FUNCTIONTYPE; 1; 0] fails
    with [UnknownValueType]: the error of the nested parameter decoder
    (tag 0) propagates. *)
Lemma Type_recognized_tag_nested_unknown :
  In FUNCTIONTYPE Type_tags
  /\ VarInt7_serialize FUNCTIONTYPE = [96]
  /\ Type_.deserialize [96; 1; 0] = (Err (UnknownValueType 0), []).
Proof. split; [cbn; tauto | split; reflexivity]. Qed.

(** C4 (amended). For every signed 7-bit tag [t]: at the [ValueType],
    [StorageType], [BlockType] and [Type] levels an unrecognised [t] fails
    with [UnknownValueType t] right after the tag; a recognised [t] never
    makes [ValueType], [StorageType] or [BlockType] fail with
    [UnknownValueType], and makes [Type] continue exactly as the selected
    sub-decoder on the bytes after the tag (whose own errors propagate). *)
Theorem tag_dispatch_rejection t rest :
  -64 <= t < 64 ->
  let bytes := VarInt7_serialize t ++ rest in
  (~ In t ValueType_tags -> ValueType.deserialize bytes = (Err (UnknownValueType t), rest))
  /\ (In t ValueType_tags -> forall x, fst (ValueType.deserialize bytes) <> Err (UnknownValueType x))
  /\ (~ In t StorageType_tags -> StorageType.deserialize bytes = (Err (UnknownValueType t), rest))
  /\ (In t StorageType_tags -> forall x, fst (StorageType.deserialize bytes) <> Err (UnknownValueType x))
  /\ (~ In t BlockType_tags -> BlockType.deserialize bytes = (Err (UnknownValueType t), rest))
  /\ (In t BlockType_tags -> forall x, fst (BlockType.deserialize bytes) <> Err (UnknownValueType x))
  /\ (~ In t Type_tags -> Type_.deserialize bytes = (Err (UnknownValueType t), rest))
  /\ (t = FUNCTIONTYPE -> Type_.deserialize bytes = fmap Type_.Function FunctionType.deserialize rest)
  /\ (t = STRUCTTYPE -> Type_.deserialize bytes = fmap Type_.Struct StructType.deserialize rest)
  /\ (t = ARRAYTYPE -> Type_.deserialize bytes = fmap Type_.Array ArrayType.deserialize rest).
Proof.
  intros Ht bytes. subst bytes.
  assert (H7 : VarInt7_deserialize (VarInt7_serialize t ++ rest) = (Ok t, rest))
    by (apply VarInt7_roundtrip, Ht).
  unfold ValueType.deserialize, StorageType.deserialize, BlockType.deserialize,
    Type_.deserialize.
  rewrite !(bind_step _ _ _ _ _ H7).
  assert (HV : In t ValueType_tags -> exists v, ValueType.from_bits t = Some v).
  { unfold ValueType_tags; cbn [In]; intros Hin.
    repeat destruct Hin as [<- | Hin]; try (eexists; reflexivity); contradiction. }
  repeat split.
  - intros Hn. rewrite ValueType_from_bits_None by exact Hn. reflexivity.
  - intros Hin x. destruct (HV Hin) as [v ->]. apply ValueType_read_rest_no_UVT.
  - intros Hn. unfold StorageType_tags in Hn; cbn [In] in Hn.
    destruct (Z.eqb_spec t PACKEDI8TYPE); [exfalso; apply Hn; intuition congruence|].
    destruct (Z.eqb_spec t PACKEDI16TYPE); [exfalso; apply Hn; intuition congruence|].
    rewrite ValueType_from_bits_None by tauto. reflexivity.
  - intros Hin x. unfold StorageType_tags in Hin; cbn [In] in Hin.
    destruct (Z.eqb_spec t PACKEDI8TYPE); [discriminate|].
    destruct (Z.eqb_spec t PACKEDI16TYPE); [discriminate|].
    destruct HV as [v ->]; [destruct Hin as [?|[?|?]]; [congruence|congruence|assumption]|].
    unfold fmap, bind. pose proof (ValueType_read_rest_no_UVT v rest x) as H.
    destruct (ValueType.read_rest v rest) as [[a|e] s']; cbn; [discriminate|]. intros Hc; injection Hc as ->; apply H; reflexivity.
  - intros Hn. unfold BlockType_tags in Hn; cbn [In] in Hn.
    destruct (Z.eqb_spec t NORESULTTYPE); [exfalso; apply Hn; intuition congruence|].
    rewrite ValueType_from_bits_None by tauto. reflexivity.
  - intros Hin x. unfold BlockType_tags in Hin; cbn [In] in Hin.
    destruct (Z.eqb_spec t NORESULTTYPE); [discriminate|].
    destruct HV as [v ->]; [destruct Hin as [?|?]; [congruence|assumption]|]. discriminate.
  - intros Hn. unfold Type_tags in Hn; cbn [In] in Hn.
    destruct (Z.eqb_spec t FUNCTIONTYPE); [exfalso; apply Hn; intuition congruence|].
    destruct (Z.eqb_spec t STRUCTTYPE); [exfalso; apply Hn; intuition congruence|].
    destruct (Z.eqb_spec t ARRAYTYPE); [exfalso; apply Hn; intuition congruence|]. reflexivity.
  - intros ->. reflexivity.
  - intros ->. reflexivity.
  - intros ->. reflexivity.
Qed.

Lemma tag_dispatch_rejection_witness :
  -64 <= 0 < 64 /\
  ValueType.deserialize (VarInt7_serialize 0 ++ [5]) = (Err (UnknownValueType 0), [5]).
Proof.
  split; [lia|].
  destruct (tag_dispatch_rejection 0 [5]) as [H _]; [lia|].
  apply H. cbv. intuition discriminate.
Defined.

(** C5. After the parameter list, [FunctionType::deserialize] reads a
    [VarUint32] count [n]: [n = 0] gives no return type, [n = 1] reads one
    [ValueType] as the return type, and any [n >= 2] fails with
    [Other("Return types length should be 0 or 1")] leaving the stream
    right after the count. *)
Theorem FunctionType_return_arity s params s1 n s2 :
  CountedList_deserialize ValueType.deserialize s = (Ok params, s1) ->
  VarUint32_deserialize s1 = (Ok n, s2) ->
  (n = 0 -> FunctionType.deserialize s = (Ok (FunctionType.mk params None), s2))
  /\ (n = 1 -> FunctionType.deserialize s =
               match ValueType.deserialize s2 with
               | (Ok v, s3) => (Ok (FunctionType.mk params (Some v)), s3)
               | (Err e, s3) => (Err e, s3)
               end)
  /\ (n >= 2 -> FunctionType.deserialize s =
                (Err (Other "Return types length should be 0 or 1"), s2)).
Proof.
  intros Hp Hn. unfold FunctionType.deserialize.
  rewrite (bind_step _ _ _ _ _ Hp), (bind_step _ _ _ _ _ Hn).
  repeat split; intros Hc.
  - subst n. reflexivity.
  - subst n. cbn [Z.eqb Pos.eqb]. unfold fmap, bind.
    destruct (ValueType.deserialize s2) as [[v|e] s3]; reflexivity.
  - destruct (Z.eqb_spec n 1); [lia|]. destruct (Z.eqb_spec n 0); [lia|]. reflexivity.
Qed.

Lemma FunctionType_return_arity_witness :
  CountedList_deserialize ValueType.deserialize [1; 126; 2; 127]
    = (Ok [ValueType.Num NumType.I64], [2; 127])
  /\ VarUint32_deserialize [2; 127] = (Ok 2, [127])
  /\ FunctionType.deserialize [1; 126; 2; 127]
     = (Err (Other "Return types length should be 0 or 1"), [127]).
Proof.
  split; [reflexivity|]. split; [reflexivity|].
  apply (FunctionType_return_arity [1; 126; 2; 127] [ValueType.Num NumType.I64]
           [2; 127] 2 [127]); [reflexivity | reflexivity | lia].
Defined.

(** C6. [RefType::Ref(i)] serializes to the [REFTYPE] tag (-0x12 as
    [VarInt7], the byte 0x6e) followed by the [VarUint32] encoding of [i],
    and [RefType::deserialize] reads it back as [Ref(i)], for every [u32]
    index [i] (for 7: the bytes [0x6e 0x07]). *)
Theorem RefType_Ref_encoding i :
  is_u32 i = true ->
  RefType.serialize (RefType.Ref i) = VarInt7_serialize REFTYPE ++ VarUint32_serialize i
  /\ VarInt7_serialize REFTYPE = [110]
  /\ RefType.deserialize (RefType.serialize (RefType.Ref i)) = (Ok (RefType.Ref i), []).
Proof.
  intros Hi. split; [reflexivity | split; [reflexivity|]].
  rewrite <- (app_nil_r (RefType.serialize _)). apply RefType_roundtrip, Hi.
Qed.

Lemma RefType_Ref_encoding_witness :
  is_u32 7 = true
  /\ RefType.serialize (RefType.Ref 7) = [110; 7]
  /\ RefType.deserialize [110; 7] = (Ok (RefType.Ref 7), []).
Proof.
  split; [reflexivity|].
  destruct (RefType_Ref_encoding 7 eq_refl) as (H1 & H2 & H3).
  rewrite H1, H2 in *. split; [reflexivity | exact H3].
Defined.

(** C7. [StorageType::deserialize] checks [PACKEDI8TYPE], then
    [PACKEDI16TYPE], reading nothing past the tag for them; every other tag
    is decoded exactly as [ValueType::deserialize] decodes it (wrapped in
    [StorageType::Value]), so the [REFTYPE] tag reads its trailing
    [VarUint32] index into the result. *)
Theorem StorageType_deserialize_dispatch t i rest :
  -64 <= t < 64 -> t <> PACKEDI8TYPE -> t <> PACKEDI16TYPE -> is_u32 i = true ->
  StorageType.deserialize (VarInt7_serialize PACKEDI8TYPE ++ rest) = (Ok StorageType.PackedI8, rest)
  /\ StorageType.deserialize (VarInt7_serialize PACKEDI16TYPE ++ rest)
     = (Ok StorageType.PackedI16, rest)
  /\ StorageType.deserialize (VarInt7_serialize t ++ rest)
     = fmap StorageType.Value ValueType.deserialize (VarInt7_serialize t ++ rest)
  /\ StorageType.deserialize (VarInt7_serialize REFTYPE ++ VarUint32_serialize i ++ rest)
     = (Ok (StorageType.Value (ValueType.Ref (RefType.Ref i))), rest).
Proof.
  intros Ht H8 H16 Hi. split; [reflexivity | split; [reflexivity | split]].
  - assert (H7 : VarInt7_deserialize (VarInt7_serialize t ++ rest) = (Ok t, rest))
      by (apply VarInt7_roundtrip, Ht).
    unfold StorageType.deserialize, ValueType.deserialize.
    unfold fmap at 2, bind at 2. rewrite !(bind_step _ _ _ _ _ H7).
    destruct (Z.eqb_spec t PACKEDI8TYPE); [contradiction|].
    destruct (Z.eqb_spec t PACKEDI16TYPE); [contradiction|].
    destruct (ValueType.from_bits t) as [v|]; cbn -[ValueType.read_rest]; [|reflexivity].
    unfold fmap, bind. destruct (ValueType.read_rest v rest) as [[]]; reflexivity.
  - exact (StorageType_roundtrip (StorageType.Value (ValueType.Ref (RefType.Ref i))) rest Hi).
Qed.

Lemma StorageType_deserialize_dispatch_witness :
  StorageType.deserialize (VarInt7_serialize REFTYPE ++ VarUint32_serialize 300 ++ [9])
  = (Ok (StorageType.Value (ValueType.Ref (RefType.Ref 300))), [9])
  /\ -64 <= ANYREFTYPE < 64 /\ ANYREFTYPE <> PACKEDI8TYPE /\ ANYREFTYPE <> PACKEDI16TYPE
  /\ is_u32 300 = true.
Proof.
  refine (conj _ (conj _ (conj _ (conj _ eq_refl)))).
  - apply (StorageType_deserialize_dispatch ANYREFTYPE 300 [9]);
      [unfold ANYREFTYPE; lia | discriminate | discriminate | reflexivity].
  - unfold ANYREFTYPE; lia.
  - discriminate.
  - discriminate.
Defined.

(** C8. [ValueTypesBuilder::with_callback(Identity).i32().f64().build()]
    is the vector [[I32, F64]]; each selection method appends its value
    type and keeps the continuation, and [build] hands the accumulated
    vector to the continuation unchanged. *)
Theorem ValueTypesBuilder_chain :
  ValueTypesBuilder.build
    (ValueTypesBuilder.f64 (ValueTypesBuilder.i32 (ValueTypesBuilder.with_callback Identity)))
  = [ValueType.Num NumType.I32; ValueType.Num NumType.F64]
  /\ (forall R (b : ValueTypesBuilder.t R),
        ValueTypesBuilder.value_types (ValueTypesBuilder.i32 b)
          = ValueTypesBuilder.value_types b ++ [ValueType.Num NumType.I32]
        /\ ValueTypesBuilder.value_types (ValueTypesBuilder.i64 b)
           = ValueTypesBuilder.value_types b ++ [ValueType.Num NumType.I64]
        /\ ValueTypesBuilder.value_types (ValueTypesBuilder.f32 b)
           = ValueTypesBuilder.value_types b ++ [ValueType.Num NumType.F32]
        /\ ValueTypesBuilder.value_types (ValueTypesBuilder.f64 b)
           = ValueTypesBuilder.value_types b ++ [ValueType.Num NumType.F64]
        /\ ValueTypesBuilder.callback (ValueTypesBuilder.i32 b) = ValueTypesBuilder.callback b
        /\ ValueTypesBuilder.callback (ValueTypesBuilder.i64 b) = ValueTypesBuilder.callback b
        /\ ValueTypesBuilder.callback (ValueTypesBuilder.f32 b) = ValueTypesBuilder.callback b
        /\ ValueTypesBuilder.callback (ValueTypesBuilder.f64 b) = ValueTypesBuilder.callback b
        /\ ValueTypesBuilder.build b
           = ValueTypesBuilder.callback b (ValueTypesBuilder.value_types b)).
Proof. split; [reflexivity|]. intros R b. repeat split. Qed.

(** C9. Two constructible [StructType]s whose field vectors are
    permutations of each other but differ in order are unequal, and their
    serializations differ (serialization is injective on constructible
    struct types since it round-trips). *)
Theorem StructType_order_sensitive (s1 s2 : StructType.t) :
  StructType.wf s1 = true -> StructType.wf s2 = true ->
  Permutation (StructType.fields s1) (StructType.fields s2) ->
  StructType.fields s1 <> StructType.fields s2 ->
  s1 <> s2 /\ StructType.serialize s1 <> StructType.serialize s2.
Proof.
  intros H1 H2 _ Hne. split.
  - intros ->. apply Hne; reflexivity.
  - intros Hser. apply Hne.
    pose proof (StructType_roundtrip s1 [] H1) as R1.
    pose proof (StructType_roundtrip s2 [] H2) as R2.
    rewrite Hser, R2 in R1. congruence.
Qed.

Lemma StructType_order_sensitive_witness :
  let fa := FieldType.mk (StorageType.Value (ValueType.Num NumType.I32)) true in
  let fb := FieldType.mk StorageType.PackedI8 false in
  let s1 := StructType.mk [fa; fb] in
  let s2 := StructType.mk [fb; fa] in
  StructType.wf s1 = true /\ StructType.wf s2 = true
  /\ Permutation (StructType.fields s1) (StructType.fields s2)
  /\ StructType.fields s1 <> StructType.fields s2
  /\ s1 <> s2 /\ StructType.serialize s1 <> StructType.serialize s2.
Proof.
  cbv zeta.
  assert (HP : Permutation [FieldType.mk (StorageType.Value (ValueType.Num NumType.I32)) true;
                            FieldType.mk StorageType.PackedI8 false]
                           [FieldType.mk StorageType.PackedI8 false;
                            FieldType.mk (StorageType.Value (ValueType.Num NumType.I32)) true])
    by apply perm_swap.
  assert (HN : [FieldType.mk (StorageType.Value (ValueType.Num NumType.I32)) true;
                FieldType.mk StorageType.PackedI8 false]
               <> [FieldType.mk StorageType.PackedI8 false;
                   FieldType.mk (StorageType.Value (ValueType.Num NumType.I32)) true])
    by discriminate.
  refine (conj eq_refl (conj eq_refl (conj HP (conj HN _)))).
  apply StructType_order_sensitive; [reflexivity | reflexivity | exact HP | exact HN].
Defined.

(** C10. [BlockType::serialize] writes exactly one tag byte for every
    block type; for [Value(Ref(Ref(i)))] it is the [REFTYPE] byte alone,
    the index never written; reading that byte consumes nothing after it
    and always yields [Value(Ref(Ref(0)))]. *)
Theorem BlockType_single_tag_byte :
  (forall b, List.length (BlockType.serialize b) = 1%nat)
  /\ forall i rest,
     BlockType.serialize (BlockType.Value (ValueType.Ref (RefType.Ref i)))
       = VarInt7_serialize REFTYPE
     /\ VarInt7_serialize REFTYPE = [110]
     /\ BlockType.deserialize (VarInt7_serialize REFTYPE ++ rest)
        = (Ok (BlockType.Value (ValueType.Ref (RefType.Ref 0))), rest).
Proof.
  split.
  - intros b. reflexivity.
  - intros i rest. repeat split.
Qed.

(** * Further properties of the code *)

(** ** Tag tables *)

(** X1. [NumType::from_bits] and [NumType::to_bits] are inverse tables:
    [from_bits x] is [Some n] exactly when [to_bits n] is [x]. *)
Theorem NumType_bits_inverse x n :
  NumType.from_bits x = Some n <-> NumType.to_bits n = x.
Proof.
  unfold NumType.from_bits, NumType.to_bits, I32TYPE, I64TYPE, F32TYPE, F64TYPE.
  split.
  - eqb_cases x; intros H; try discriminate; injection H as <-; subst; reflexivity.
  - intros <-. destruct n; reflexivity.
Qed.

(** A [Ref] index reset to 0. *)
Definition zero_index (v : ValueType.t) : ValueType.t :=
  match v with
  | ValueType.Ref (RefType.Ref _) => ValueType.Ref (RefType.Ref 0)
  | _ => v
  end.

(** X2. [ValueType::from_bits] (and [RefType::from_bits]) never yield a
    value whose [to_bits] differs from the tag read, and any value they
    yield for [REFTYPE] carries index 0; conversely [from_bits (to_bits v)]
    gives [v] back except that a [Ref] index becomes 0. *)
Theorem ValueType_bits_tables x v r :
  (ValueType.from_bits x = Some v -> ValueType.to_bits v = x /\ zero_index v = v)
  /\ ValueType.from_bits (ValueType.to_bits v) = Some (zero_index v)
  /\ (RefType.from_bits x = Some r -> RefType.to_bits r = x)
  /\ RefType.from_bits (RefType.to_bits r)
     = Some (match r with RefType.Ref _ => RefType.Ref 0 | _ => r end).
Proof.
  split; [|split; [|split]].
  - unfold ValueType.from_bits, NumType.from_bits, RefType.from_bits,
      V128TYPE, I32TYPE, I64TYPE, F32TYPE, F64TYPE, ANYFUNCTYPE, ANYREFTYPE, REFTYPE.
    eqb_cases x; cbn; intros H; try discriminate; injection H as <-; split;
      try reflexivity; subst; reflexivity.
  - destruct v as [[]|[| |i]|]; reflexivity.
  - unfold RefType.from_bits, ANYFUNCTYPE, ANYREFTYPE, REFTYPE.
    eqb_cases x; intros H; try discriminate; injection H as <-; subst; reflexivity.
  - destruct r; reflexivity.
Qed.

(** X3. The tag spaces are disjoint: no tag is both [V128TYPE], a
    [NumType] tag and a [RefType] tag, so the priority order of the [or]
    chain in [ValueType::from_bits] does not matter; and the packed, the
    no-result and the [Type] discriminant constants are no value-type
    tag. *)
Theorem value_tag_spaces_disjoint x :
  (x = V128TYPE -> NumType.from_bits x = None /\ RefType.from_bits x = None)
  /\ (NumType.from_bits x <> None -> RefType.from_bits x = None)
  /\ ValueType.from_bits x
     = option_or (option_map ValueType.Ref (RefType.from_bits x))
         (option_or (option_map ValueType.Num (NumType.from_bits x))
                    (if x =? V128TYPE then Some ValueType.V128 else None))
  /\ (In x [PACKEDI8TYPE; PACKEDI16TYPE; NORESULTTYPE; FUNCTIONTYPE; STRUCTTYPE; ARRAYTYPE] ->
      ValueType.from_bits x = None).
Proof.
  unfold ValueType.from_bits, NumType.from_bits, RefType.from_bits,
    V128TYPE, I32TYPE, I64TYPE, F32TYPE, F64TYPE, ANYFUNCTYPE, ANYREFTYPE, REFTYPE,
    PACKEDI8TYPE, PACKEDI16TYPE, NORESULTTYPE, FUNCTIONTYPE, STRUCTTYPE, ARRAYTYPE.
  eqb_cases x; subst; cbn; repeat split; try reflexivity; try discriminate;
    try (intros; congruence); try (intros H; exfalso; apply H; reflexivity);
    intros H; repeat destruct H as [H|H]; try congruence; contradiction.
Qed.

(** ** Exact round trips *)

Definition roundtrips {A} (des : M A) (ser : A -> list Z) (wf : A -> bool) : Prop :=
  forall v rest, wf v = true -> des (ser v ++ rest) = (Ok v, rest).

(** X4. Every constructible value of [RefType], [ValueType],
    [StorageType], [FieldType], [FunctionType], [StructType], [ArrayType]
    and [Type] is read back exactly by its [deserialize], which consumes
    exactly the bytes its [serialize] wrote and leaves what follows. *)
Theorem deserialize_serialize_exact :
  roundtrips RefType.deserialize RefType.serialize RefType.wf
  /\ roundtrips ValueType.deserialize ValueType.serialize ValueType.wf
  /\ roundtrips StorageType.deserialize StorageType.serialize StorageType.wf
  /\ roundtrips FieldType.deserialize FieldType.serialize FieldType.wf
  /\ roundtrips FunctionType.deserialize FunctionType.serialize FunctionType.wf
  /\ roundtrips StructType.deserialize StructType.serialize StructType.wf
  /\ roundtrips ArrayType.deserialize ArrayType.serialize ArrayType.wf
  /\ roundtrips Type_.deserialize Type_.serialize Type_.wf.
Proof.
  repeat split; intros v rest Hw; auto using
    RefType_roundtrip, ValueType_roundtrip, StorageType_roundtrip, FieldType_roundtrip,
    FunctionType_roundtrip, StructType_roundtrip, ArrayType_roundtrip, Type_roundtrip.
Qed.

Lemma deserialize_serialize_exact_witness :
  let s := Type_.Struct (StructType.mk
             [FieldType.mk (StorageType.Value (ValueType.Ref (RefType.Ref 70000))) true;
              FieldType.mk StorageType.PackedI16 false]) in
  Type_.wf s = true /\ Type_.deserialize (Type_.serialize s ++ [7]) = (Ok s, [7]).
Proof.
  cbv zeta. split; [reflexivity|].
  destruct deserialize_serialize_exact as (_ & _ & _ & _ & _ & _ & _ & H).
  apply H. reflexivity.
Defined.

Lemma roundtrips_injective {A} (des : M A) (ser : A -> list Z) (wf : A -> bool) v1 v2 :
  roundtrips des ser wf -> wf v1 = true -> wf v2 = true -> ser v1 = ser v2 -> v1 = v2.
Proof.
  intros H H1 H2 E. pose proof (H v1 [] H1) as R1. pose proof (H v2 [] H2) as R2.
  rewrite E, R2 in R1. congruence.
Qed.

(** X5. [serialize] is injective on constructible values of every type but
    [BlockType]: two values written as the same bytes are equal. *)
Theorem serialize_injective (r1 r2 : RefType.t) (v1 v2 : ValueType.t)
  (s1 s2 : StorageType.t) (f1 f2 : FieldType.t) (g1 g2 : FunctionType.t)
  (t1 t2 : StructType.t) (a1 a2 : ArrayType.t) (x1 x2 : Type_.t) :
  (RefType.wf r1 = true -> RefType.wf r2 = true ->
   RefType.serialize r1 = RefType.serialize r2 -> r1 = r2)
  /\ (ValueType.wf v1 = true -> ValueType.wf v2 = true ->
      ValueType.serialize v1 = ValueType.serialize v2 -> v1 = v2)
  /\ (StorageType.wf s1 = true -> StorageType.wf s2 = true ->
      StorageType.serialize s1 = StorageType.serialize s2 -> s1 = s2)
  /\ (FieldType.wf f1 = true -> FieldType.wf f2 = true ->
      FieldType.serialize f1 = FieldType.serialize f2 -> f1 = f2)
  /\ (FunctionType.wf g1 = true -> FunctionType.wf g2 = true ->
      FunctionType.serialize g1 = FunctionType.serialize g2 -> g1 = g2)
  /\ (StructType.wf t1 = true -> StructType.wf t2 = true ->
      StructType.serialize t1 = StructType.serialize t2 -> t1 = t2)
  /\ (ArrayType.wf a1 = true -> ArrayType.wf a2 = true ->
      ArrayType.serialize a1 = ArrayType.serialize a2 -> a1 = a2)
  /\ (Type_.wf x1 = true -> Type_.wf x2 = true ->
      Type_.serialize x1 = Type_.serialize x2 -> x1 = x2).
Proof.
  repeat split; intros Hw1 Hw2 E;
    (eapply roundtrips_injective; [| exact Hw1 | exact Hw2 | exact E]);
    intros v rest Hw;
    first [ apply RefType_roundtrip, Hw | apply ValueType_roundtrip, Hw
          | apply StorageType_roundtrip, Hw | apply FieldType_roundtrip, Hw
          | apply FunctionType_roundtrip, Hw | apply StructType_roundtrip, Hw
          | apply ArrayType_roundtrip, Hw | apply Type_roundtrip, Hw ].
Qed.

Lemma serialize_injective_witness :
  let g1 := FunctionType.mk [ValueType.Num NumType.I32] None in
  let g2 := FunctionType.mk [] (Some (ValueType.Num NumType.I32)) in
  FunctionType.wf g1 = true /\ FunctionType.wf g2 = true
  /\ (FunctionType.serialize g1 = FunctionType.serialize g2 -> g1 = g2).
Proof.
  cbv zeta. split; [reflexivity | split; [reflexivity|]].
  pose (v := ValueType.V128). pose (s := StorageType.PackedI8).
  pose (f := FieldType.mk s true). pose (t := StructType.mk []).
  pose (a := ArrayType.mk f). pose (x := Type_.Array a).
  destruct (serialize_injective RefType.AnyRef RefType.AnyRef v v s s f f
              (FunctionType.mk [ValueType.Num NumType.I32] None)
              (FunctionType.mk [] (Some (ValueType.Num NumType.I32)))
              t t a a x x) as (_ & _ & _ & _ & H & _).
  apply H; reflexivity.
Defined.

(** ** Decoders never read ahead *)

Definition no_lookahead {A} (d : M A) : Prop :=
  forall l x a r, d l = (Ok a, r) -> d (l ++ x) = (Ok a, r ++ x).

Lemma nl_ret {A} (a : A) : no_lookahead (ret a).
Proof. intros l x a' r H. injection H as <- <-. reflexivity. Qed.

Lemma nl_fail {A} e : no_lookahead (@fail A e).
Proof. intros l x a r H. discriminate H. Qed.

Lemma nl_read_byte : no_lookahead read_byte.
Proof. intros [|b l] x a r H; cbn in *; [discriminate | injection H as <- <-; reflexivity]. Qed.

Lemma nl_bind {A B} (m : M A) (k : A -> M B) :
  no_lookahead m -> (forall a, no_lookahead (k a)) -> no_lookahead (bind m k).
Proof.
  intros Hm Hk l x b r H. unfold bind in *.
  destruct (m l) as [[a|e] l1] eqn:E; [|discriminate].
  rewrite (Hm _ _ _ _ E). apply Hk, H.
Qed.

Ltac nl_solve :=
  repeat (unfold fmap, ok_or;
    first [ apply nl_ret | apply nl_fail | apply nl_read_byte
          | apply nl_bind; [|intro]
          | match goal with
            | |- no_lookahead (if ?c then _ else _) => destruct c
            | |- no_lookahead (match ?x with _ => _ end) => destruct x
            end ]).

Lemma nl_read_leb n shift acc : no_lookahead (read_leb n shift acc).
Proof.
  revert shift acc. induction n as [|n IH]; intros shift acc; cbn [read_leb].
  - apply nl_fail.
  - apply nl_bind; [apply nl_read_byte | intros b].
    destruct (b <? 128); [nl_solve | apply IH].
Qed.

Lemma nl_VarUint32 : no_lookahead VarUint32_deserialize.
Proof. apply nl_read_leb. Qed.

Lemma nl_read_n {A} (d : M A) n : no_lookahead d -> no_lookahead (read_n n d).
Proof.
  intros Hd. induction n as [|n IH]; cbn [read_n]; [apply nl_ret|].
  apply nl_bind; [exact Hd | intros a; apply nl_bind; [exact IH | intros; apply nl_ret]].
Qed.

Lemma nl_CountedList {A} (d : M A) : no_lookahead d -> no_lookahead (CountedList_deserialize d).
Proof.
  intros Hd. apply nl_bind; [apply nl_VarUint32 | intros; apply nl_read_n, Hd].
Qed.

Lemma nl_VarInt7 : no_lookahead VarInt7_deserialize.
Proof. unfold VarInt7_deserialize. nl_solve. Qed.

Lemma nl_VarUint1 : no_lookahead VarUint1_deserialize.
Proof. unfold VarUint1_deserialize. nl_solve. Qed.

Lemma nl_RefType_read_rest r : no_lookahead (RefType.read_rest r).
Proof. destruct r; cbn [RefType.read_rest]; nl_solve; apply nl_VarUint32. Qed.

Lemma nl_ValueType_read_rest v : no_lookahead (ValueType.read_rest v).
Proof. destruct v; cbn [ValueType.read_rest]; nl_solve; apply nl_RefType_read_rest. Qed.

Lemma nl_ValueType : no_lookahead ValueType.deserialize.
Proof.
  unfold ValueType.deserialize. apply nl_bind; [apply nl_VarInt7 | intros t].
  apply nl_bind; [nl_solve | apply nl_ValueType_read_rest].
Qed.

Lemma nl_StorageType : no_lookahead StorageType.deserialize.
Proof.
  unfold StorageType.deserialize. apply nl_bind; [apply nl_VarInt7 | intros t].
  nl_solve; apply nl_ValueType_read_rest.
Qed.

Lemma nl_FieldType : no_lookahead FieldType.deserialize.
Proof.
  unfold FieldType.deserialize. apply nl_bind; [apply nl_VarUint1 | intros m].
  apply nl_bind; [apply nl_StorageType | intros; apply nl_ret].
Qed.

Lemma nl_FunctionType : no_lookahead FunctionType.deserialize.
Proof.
  unfold FunctionType.deserialize.
  apply nl_bind; [apply nl_CountedList, nl_ValueType | intros ps].
  apply nl_bind; [apply nl_VarUint32 | intros n].
  apply nl_bind; [| intros; apply nl_ret].
  destruct (n =? 1); [apply nl_bind; [apply nl_ValueType | intros; apply nl_ret]|].
  destruct (n =? 0); [apply nl_ret | apply nl_fail].
Qed.

Lemma nl_StructType : no_lookahead StructType.deserialize.
Proof.
  apply nl_bind; [apply nl_CountedList, nl_FieldType | intros; apply nl_ret].
Qed.

Lemma nl_ArrayType : no_lookahead ArrayType.deserialize.
Proof. apply nl_bind; [apply nl_FieldType | intros; apply nl_ret]. Qed.

Lemma nl_BlockType : no_lookahead BlockType.deserialize.
Proof.
  unfold BlockType.deserialize. apply nl_bind; [apply nl_VarInt7 | intros t]. nl_solve.
Qed.

Lemma nl_RefType : no_lookahead RefType.deserialize.
Proof.
  unfold RefType.deserialize. apply nl_bind; [apply nl_VarInt7 | intros t].
  apply nl_bind; [nl_solve | apply nl_RefType_read_rest].
Qed.

Lemma nl_Type : no_lookahead Type_.deserialize.
Proof.
  unfold Type_.deserialize. apply nl_bind; [apply nl_VarInt7 | intros t].
  destruct (t =? FUNCTIONTYPE); [apply nl_bind; [apply nl_FunctionType | intros; apply nl_ret]|].
  destruct (t =? STRUCTTYPE); [apply nl_bind; [apply nl_StructType | intros; apply nl_ret]|].
  destruct (t =? ARRAYTYPE); [apply nl_bind; [apply nl_ArrayType | intros; apply nl_ret]|].
  apply nl_fail.
Qed.

(** X6. No deserializer of the core reads past what it consumes: when it
    succeeds on some input, appending any bytes to that input leaves the
    value read unchanged and only extends the unread remainder. *)
Theorem deserializers_no_lookahead :
  no_lookahead RefType.deserialize /\ no_lookahead ValueType.deserialize
  /\ no_lookahead BlockType.deserialize /\ no_lookahead StorageType.deserialize
  /\ no_lookahead FieldType.deserialize /\ no_lookahead FunctionType.deserialize
  /\ no_lookahead StructType.deserialize /\ no_lookahead ArrayType.deserialize
  /\ no_lookahead Type_.deserialize.
Proof.
  repeat split; auto using nl_RefType, nl_ValueType, nl_BlockType, nl_StorageType,
    nl_FieldType, nl_FunctionType, nl_StructType, nl_ArrayType, nl_Type.
Qed.

Lemma deserializers_no_lookahead_witness :
  Type_.deserialize [96; 0; 0] = (Ok (Type_.Function (FunctionType.mk [] None)), [])
  /\ Type_.deserialize ([96; 0; 0] ++ [1; 2])
     = (Ok (Type_.Function (FunctionType.mk [] None)), [] ++ [1; 2]).
Proof.
  split; [reflexivity|].
  destruct deserializers_no_lookahead as (_ & _ & _ & _ & _ & _ & _ & _ & H).
  apply H. reflexivity.
Defined.

(** ** Truncated encodings *)

Definition prefix_fails {A} (des : M A) (ser : A -> list Z) (wf : A -> bool) : Prop :=
  forall v p q, wf v = true -> ser v = p ++ q -> q <> [] ->
  exists e r, des p = (Err e, r).

Lemma prefix_fails_of {A} (des : M A) (ser : A -> list Z) (wf : A -> bool) :
  no_lookahead des ->
  (forall v, wf v = true -> exists a, des (ser v) = (Ok a, [])) ->
  prefix_fails des ser wf.
Proof.
  intros Hnl Hrt v p q Hw E Hq. destruct (Hrt v Hw) as [a Ha].
  destruct (des p) as [[a'|e] r] eqn:Ep; [|eauto].
  exfalso. apply (Hnl _ q) in Ep. rewrite <- E, Ha in Ep. injection Ep as _ Er.
  apply Hq. destruct r; [exact (eq_sym Er) | discriminate].
Qed.

Ltac exact_rt lem := intros v Hw; exists v; rewrite <- (app_nil_r (_ v)); apply lem, Hw.

(** X7. Every strict prefix of the bytes [serialize] writes for a
    constructible value (of any of the core's types, [BlockType]
    included) makes [deserialize] fail: a truncated encoding is never
    read as some other value. *)
Theorem truncated_encoding_fails :
  prefix_fails RefType.deserialize RefType.serialize RefType.wf
  /\ prefix_fails ValueType.deserialize ValueType.serialize ValueType.wf
  /\ prefix_fails BlockType.deserialize BlockType.serialize BlockType.wf
  /\ prefix_fails StorageType.deserialize StorageType.serialize StorageType.wf
  /\ prefix_fails FieldType.deserialize FieldType.serialize FieldType.wf
  /\ prefix_fails FunctionType.deserialize FunctionType.serialize FunctionType.wf
  /\ prefix_fails StructType.deserialize StructType.serialize StructType.wf
  /\ prefix_fails ArrayType.deserialize ArrayType.serialize ArrayType.wf
  /\ prefix_fails Type_.deserialize Type_.serialize Type_.wf.
Proof.
  split; [apply prefix_fails_of; [apply nl_RefType | exact_rt RefType_roundtrip]|].
  split; [apply prefix_fails_of; [apply nl_ValueType | exact_rt ValueType_roundtrip]|].
  split.
  { apply prefix_fails_of; [apply nl_BlockType|]. intros b _.
    exists (BlockType_tag_only b). rewrite <- (app_nil_r (BlockType.serialize b)).
    apply BlockType_deserialize_serialize. }
  split; [apply prefix_fails_of; [apply nl_StorageType | exact_rt StorageType_roundtrip]|].
  split; [apply prefix_fails_of; [apply nl_FieldType | exact_rt FieldType_roundtrip]|].
  split; [apply prefix_fails_of; [apply nl_FunctionType | exact_rt FunctionType_roundtrip]|].
  split; [apply prefix_fails_of; [apply nl_StructType | exact_rt StructType_roundtrip]|].
  split; [apply prefix_fails_of; [apply nl_ArrayType | exact_rt ArrayType_roundtrip]|].
  apply prefix_fails_of; [apply nl_Type | exact_rt Type_roundtrip].
Qed.

Lemma truncated_encoding_fails_witness :
  let v := ValueType.Ref (RefType.Ref 300) in
  ValueType.wf v = true /\ ValueType.serialize v = [110; 172] ++ [2]
  /\ exists e r, ValueType.deserialize [110; 172] = (Err e, r).
Proof.
  cbv zeta. split; [reflexivity | split; [reflexivity|]].
  destruct truncated_encoding_fails as (_ & H & _).
  apply (H (ValueType.Ref (RefType.Ref 300)) [110; 172] [2]);
    [reflexivity | reflexivity | discriminate].
Defined.

(** ** Builders *)

(** X8. For any chain of [ValueTypesBuilder] selection calls, in any
    order and of any length, [build] invokes the continuation with the
    value types of the calls in call order, appended after those already
    accumulated; with [with_callback] the vector starts empty. *)
Theorem ValueTypesBuilder_any_chain {R} (b : ValueTypesBuilder.t R) (ms : list selection) :
  ValueTypesBuilder.build (fold_left select ms b)
  = ValueTypesBuilder.callback b
      (ValueTypesBuilder.value_types b ++ map selection_type ms)
  /\ forall (cb : list ValueType.t -> R),
     ValueTypesBuilder.build (fold_left select ms (ValueTypesBuilder.with_callback cb))
     = cb (map selection_type ms).
Proof.
  assert (H : forall b : ValueTypesBuilder.t R,
             ValueTypesBuilder.callback (fold_left select ms b) = ValueTypesBuilder.callback b
             /\ ValueTypesBuilder.value_types (fold_left select ms b)
                = ValueTypesBuilder.value_types b ++ map selection_type ms).
  { induction ms as [|m ms IH]; intros b'.
    - cbn. rewrite app_nil_r. split; reflexivity.
    - cbn [fold_left map]. destruct (IH (select b' m)) as [H1 H2].
      rewrite H1, H2. destruct m; cbn; rewrite <- app_assoc; split; reflexivity. }
  split.
  - unfold ValueTypesBuilder.build. destruct (H b) as [-> ->]. reflexivity.
  - intros cb. unfold ValueTypesBuilder.build.
    destruct (H (ValueTypesBuilder.with_callback cb)) as [-> ->]. reflexivity.
Qed.

(** ** Display *)

Lemma parse_decimal_app s1 s2 acc :
  parse_decimal (s1 ++ s2) acc = parse_decimal s2 (parse_decimal s1 acc).
Proof. revert acc. induction s1 as [|c s1 IH]; intros acc; [reflexivity|]. apply IH. Qed.

Lemma digit_value d :
  0 <= d < 10 -> Z.of_nat (Ascii.nat_of_ascii (digit d)) - 48 = d.
Proof.
  intros Hd. unfold digit. rewrite Ascii.nat_ascii_embedding by lia. lia.
Qed.

Lemma decimal_digits_S f n :
  decimal_digits (S f) n
  = if n <? 10 then String (digit n) EmptyString
    else (decimal_digits f (n / 10) ++ String (digit (n mod 10)) EmptyString)%string.
Proof. reflexivity. Qed.

Lemma parse_decimal_digits fuel n :
  0 <= n < 10 ^ Z.of_nat (S fuel) -> parse_decimal (decimal_digits (S fuel) n) 0 = n.
Proof.
  revert n. induction fuel as [|f IH]; intros n Hn; rewrite decimal_digits_S.
  - destruct (n <? 10) eqn:E; [|apply Z.ltb_ge in E; cbn in Hn; lia].
    apply Z.ltb_lt in E. cbn [parse_decimal]. rewrite digit_value by lia. lia.
  - destruct (n <? 10) eqn:E.
    + apply Z.ltb_lt in E. cbn [parse_decimal]. rewrite digit_value by lia. lia.
    + apply Z.ltb_ge in E. rewrite parse_decimal_app, IH.
      * cbn [parse_decimal]. rewrite digit_value by (apply Z.mod_pos_bound; lia).
        pose proof (Z.div_mod n 10). lia.
      * split; [apply Z.div_pos; lia|]. apply Z.div_lt_upper_bound; [lia|].
        replace (Z.of_nat (S (S f))) with (Z.of_nat (S f) + 1) in Hn by lia.
        rewrite Z.pow_add_r in Hn by lia. lia.
Qed.

(** X9. [Display for ValueType] tells constructible value types apart:
    two of them rendering to the same text are equal; in particular the
    index in ["(ref N)"] is the decimal text of the [u32] index, read back
    exactly. *)
Theorem ValueType_fmt_injective v1 v2 :
  ValueType.wf v1 = true -> ValueType.wf v2 = true ->
  ValueType_fmt v1 = ValueType_fmt v2 -> v1 = v2.
Proof.
  assert (Hp : forall i, is_u32 i = true -> parse_decimal (display_u32 i) 0 = i).
  { intros i Hi. unfold is_u32 in Hi. apply andb_true_iff in Hi as [H1 H2].
    apply Z.leb_le in H1. apply Z.ltb_lt in H2.
    apply parse_decimal_digits. change (10 ^ Z.of_nat 10) with 10000000000. lia. }
  destruct v1 as [[]|[| |i]|], v2 as [[]|[| |j]|]; cbn [ValueType.wf RefType.wf];
    intros H1 H2 E; try reflexivity; try discriminate E.
  cbn [ValueType_fmt append] in E. injection E as E.
  apply (f_equal (fun s => parse_decimal s 0)) in E.
  rewrite !parse_decimal_app, Hp, Hp in E by assumption. cbn in E.
  f_equal; f_equal; lia.
Qed.

Lemma ValueType_fmt_injective_witness :
  ValueType.wf (ValueType.Ref (RefType.Ref 42)) = true
  /\ ValueType_fmt (ValueType.Ref (RefType.Ref 42)) = "(ref 42)"%string
  /\ (ValueType_fmt (ValueType.Ref (RefType.Ref 42)) = ValueType_fmt (ValueType.Ref (RefType.Ref 42))
      -> ValueType.Ref (RefType.Ref 42) = ValueType.Ref (RefType.Ref 42)).
Proof.
  split; [reflexivity | split; [reflexivity|]].
  apply ValueType_fmt_injective; reflexivity.
Defined.

(** X10. A value type's bytes are also a storage type's bytes:
    [StorageType::deserialize] reads the encoding of any constructible
    [ValueType] [v] as [StorageType::Value(v)], consuming the same bytes;
    the packed tags, in turn, are refused by [ValueType::deserialize] with
    [UnknownValueType]. *)
Theorem StorageType_reads_ValueType_bytes v rest :
  ValueType.wf v = true ->
  StorageType.deserialize (ValueType.serialize v ++ rest) = (Ok (StorageType.Value v), rest)
  /\ ValueType.deserialize (StorageType.serialize StorageType.PackedI8 ++ rest)
     = (Err (UnknownValueType PACKEDI8TYPE), rest)
  /\ ValueType.deserialize (StorageType.serialize StorageType.PackedI16 ++ rest)
     = (Err (UnknownValueType PACKEDI16TYPE), rest).
Proof.
  intros Hw. split; [|split; reflexivity].
  exact (StorageType_roundtrip (StorageType.Value v) rest Hw).
Qed.

Lemma StorageType_reads_ValueType_bytes_witness :
  ValueType.wf (ValueType.Ref (RefType.Ref 5)) = true
  /\ StorageType.deserialize (ValueType.serialize (ValueType.Ref (RefType.Ref 5)) ++ [0])
     = (Ok (StorageType.Value (ValueType.Ref (RefType.Ref 5))), [0]).
Proof.
  split; [reflexivity|].
  apply (StorageType_reads_ValueType_bytes (ValueType.Ref (RefType.Ref 5)) [0]). reflexivity.
Defined.
